(** * pelicanconf.py: the site configuration of gregnicol.xyz

    The repository is one Python module, [site/pelicanconf.py].  It is a
    straight-line sequence of comments, one [from __future__ import] and
    assignments of literals to module-level names.  Pelican imports the module
    and reads the resulting namespace.

    The development embeds the module as the list of its statements, gives the
    statements their Python meaning on a namespace (a finite map from names to
    values) and states the properties of the namespace the module builds. *)

From Stdlib Require Import Ascii String.
From stdpp Require Import gmap strings list fin_maps.

Set Warnings "-register-all".

Local Open Scope string_scope.

(** ** Values and literals *)

Module Py.

(** The Python values the module builds.  A [str] is kept as the UTF-8 bytes of
    its text (the file declares [coding: utf-8]); with [unicode_literals] in
    force and on Python 3 alike, a literal with and without the [u] prefix
    denotes the same text. *)
Inductive value : Type :=
| VNone
| VBool (b : bool)
| VStr (s : string)
| VTuple (vs : list value)
| VFeature (name : string).

(** The expressions on the right-hand sides: [None], [True]/[False], string
    literals (with their [u] prefix, if any) and parenthesised tuples. *)
Inductive expr : Type :=
| ENone
| EBool (b : bool)
| EStr (u_prefix : bool) (s : string)
| ETuple (es : list expr).

(** The lines of the module.  A comment keeps the text after its [#]. *)
Inductive stmt : Type :=
| Comment (text : string)
| FromFutureImport (name : string)
| Assign (target : string) (e : expr).

Fixpoint eval (e : expr) : value :=
  match e with
  | ENone => VNone
  | EBool b => VBool b
  | EStr _ s => VStr s
  | ETuple es => VTuple (map eval es)
  end.

(** The names a statement binds. *)
Definition binds (s : stmt) : list string :=
  match s with
  | Comment _ => []
  | FromFutureImport name => [name]
  | Assign target _ => [target]
  end.

(** One statement, run on the namespace [g]. *)
Definition exec_stmt (s : stmt) (g : gmap string value) : gmap string value :=
  match s with
  | Comment _ => g
  | FromFutureImport name => <[name := VFeature name]> g
  | Assign target e => <[target := eval e]> g
  end.

Definition exec (g : gmap string value) (p : list stmt) : gmap string value :=
  foldl (fun g s => exec_stmt s g) g p.

(** The namespaces the run goes through: before the first statement, and after
    each one. *)
Fixpoint states (g : gmap string value) (p : list stmt)
  : list (gmap string value) :=
  match p with
  | [] => [g]
  | s :: p' => g :: states (exec_stmt s g) p'
  end.

Definition targets (p : list stmt) : list string := flat_map binds p.

(** None of the names the statements bind is bound in [g] yet. *)
Definition fresh_for (g : gmap string value) (p : list stmt) : Prop :=
  ∀ k, k ∈ targets p → g !! k = None.



(** The strings a value holds, left to right. *)
Fixpoint strings_of (v : value) : list string :=
  match v with
  | VStr s => [s]
  | VTuple vs => flat_map strings_of vs
  | _ => []
  end.

End Py.

Import Py.

(** ** The module *)

Definition pelicanconf : list stmt :=
  [ Comment "!/usr/bin/env python";
    Comment " -*- coding: utf-8 -*- #";
    FromFutureImport "unicode_literals";
    Assign "AUTHOR" (EStr true "greg nicol");
    Assign "SITENAME" (EStr true "INSERT INTO /dev/null ...");
    Assign "SITEURL" (EStr false "");
    Assign "PATH" (EStr false "content");
    Assign "TIMEZONE" (EStr false "Europe/Paris");
    Assign "DEFAULT_LANG" (EStr true "en");
    Comment " Feed generation is usually not desired when developing";
    Assign "FEED_ALL_ATOM" ENone;
    Assign "CATEGORY_FEED_ATOM" ENone;
    Assign "TRANSLATION_FEED_ATOM" ENone;
    Assign "AUTHOR_FEED_ATOM" ENone;
    Assign "AUTHOR_FEED_RSS" ENone;
    Comment " Blogroll";
    Assign "LINKS"
      (ETuple
         [ ETuple [EStr false "Pelican"; EStr false "http://getpelican.com/"];
           ETuple [EStr false "Python.org"; EStr false "http://python.org/"];
           ETuple [EStr false "Jinja2"; EStr false "http://jinja.pocoo.org/"];
           ETuple [EStr false "CloudFlare";
                   EStr false "https://www.cloudflare.com/ยง"] ]);
    Comment " Social widget";
    Assign "SOCIAL"
      (ETuple
         [ ETuple [EStr false "github";
                   EStr false "https://github.com/gregn610"];
           ETuple [EStr false "linkedin";
                   EStr false
                     "https://www.linkedin.com/in/greg-nicol-087a438/"] ]);
    Assign "DEFAULT_PAGINATION" (EBool false);
    Comment " Uncomment following line if you want document-relative URLs when developing";
    Comment "RELATIVE_URLS = True";
    Assign "THEME" (EStr false "themes/pelican-sober") ].

(** The configuration record: the namespace left by running the module. *)
Definition settings : gmap string value := exec ∅ pelicanconf.

(** ** Reading the record

    What a consumer of the record looks at: string fields, the two lists of
    pairs, the feed settings. *)

Module Schema.

(** A 2-tuple of strings. *)
Definition as_pair (v : value) : option (string * string) :=
  match v with
  | VTuple [VStr a; VStr b] => Some (a, b)
  | _ => None
  end.

(** A tuple of 2-tuples of strings, in the order of the tuple. *)
Definition as_pairs (v : value) : option (list (string * string)) :=
  match v with
  | VTuple vs => mapM as_pair vs
  | _ => None
  end.

Definition pair_list (g : gmap string value) (k : string)
  : option (list (string * string)) :=
  g !! k ≫= as_pairs.

Definition nonempty (s : string) : bool :=
  match s with
  | EmptyString => false
  | String _ _ => true
  end.

(** The keys the specification calls required: author, site name, content
    path, timezone, default language and theme. *)
Definition required_keys : list string :=
  ["AUTHOR"; "SITENAME"; "PATH"; "TIMEZONE"; "DEFAULT_LANG"; "THEME"].

Fixpoint starts_with (pre s : string) : bool :=
  match pre, s with
  | EmptyString, _ => true
  | String a pre', String b s' => Ascii.eqb a b && starts_with pre' s'
  | String _ _, EmptyString => false
  end.

Fixpoint contains (needle hay : string) : bool :=
  starts_with needle hay
  || match hay with
     | EmptyString => false
     | String _ hay' => contains needle hay'
     end.

(** A feed setting is a key with [FEED] in its name: the five names assigned
    under the module's comment on feed generation are of that form, and no
    other name of the module is. *)
Definition is_feed_toggle (k : string) : bool := contains "FEED" k.

(** The names assigned under that comment. *)
Definition feed_keys : list string :=
  [ "FEED_ALL_ATOM"; "CATEGORY_FEED_ATOM"; "TRANSLATION_FEED_ATOM";
    "AUTHOR_FEED_ATOM"; "AUTHOR_FEED_RSS" ].

Definition feed_toggles (g : gmap string value) : gmap string value :=
  filter (fun kv => is_feed_toggle kv.1 = true) g.

(** A feed setting is off ([None]) or names the file the feed is written to,
    which is a non-empty string. *)
Definition feed_toggle_ok (v : value) : bool :=
  match v with
  | VNone => true
  | VStr s => nonempty s
  | _ => false
  end.

End Schema.

Import Schema.

(** ** Text of a string

    A Python [str] is a sequence of code points; the bytes of a literal are
    decoded as UTF-8. *)

Module Utf8.

Definition byte (c : ascii) : N := N_of_ascii c.

(** A continuation byte [10xxxxxx] contributes its low six bits. *)
Definition cont (c : ascii) : option N :=
  let n := byte c in
  if (128 <=? n)%N && (n <? 192)%N then Some (n - 128)%N else None.

Fixpoint decode (s : string) : option (list N) :=
  match s with
  | EmptyString => Some []
  | String c s1 =>
      let n := byte c in
      if (n <? 128)%N then cons n <$> decode s1
      else if (n <? 192)%N then None
      else if (n <? 224)%N then
        match s1 with
        | String c1 s2 =>
            x1 ← cont c1;
            cons ((n - 192) * 64 + x1)%N <$> decode s2
        | _ => None
        end
      else if (n <? 240)%N then
        match s1 with
        | String c1 (String c2 s3) =>
            x1 ← cont c1; x2 ← cont c2;
            cons ((n - 224) * 4096 + x1 * 64 + x2)%N <$> decode s3
        | _ => None
        end
      else if (n <? 248)%N then
        match s1 with
        | String c1 (String c2 (String c3 s4)) =>
            x1 ← cont c1; x2 ← cont c2; x3 ← cont c3;
            cons ((n - 240) * 262144 + x1 * 4096 + x2 * 64 + x3)%N
              <$> decode s4
        | _ => None
        end
      else None
  end.

Definition is_ascii (c : ascii) : bool := (byte c <? 128)%N.

End Utf8.

(** ** URLs

    The generic syntax of RFC 3986 for a URI with an authority:
    [scheme "://" [userinfo "@"] host [":" port] path ["?" query]
    ["#" fragment]], the host a registered name or an IPv4 address.  Only the
    characters of section 2 of the RFC may occur: unreserved and reserved
    characters, and [%] followed by two hexadecimal digits.  All of them are
    ASCII. *)

Module Url.

Definition between (lo hi : N) (c : ascii) : bool :=
  let n := N_of_ascii c in (lo <=? n)%N && (n <=? hi)%N.

Fixpoint mem (c : ascii) (s : string) : bool :=
  match s with
  | EmptyString => false
  | String d s' => Ascii.eqb c d || mem c s'
  end.

Definition is_alpha (c : ascii) : bool := between 65 90 c || between 97 122 c.
Definition is_digit (c : ascii) : bool := between 48 57 c.
Definition is_hexdig (c : ascii) : bool :=
  is_digit c || between 65 70 c || between 97 102 c.
Definition is_unreserved (c : ascii) : bool :=
  is_alpha c || is_digit c || mem c "-._~".
Definition is_sub_delim (c : ascii) : bool := mem c "!$&'()*+,;=".
Definition is_gen_delim (c : ascii) : bool := mem c ":/?#[]@".
Definition is_uri_char (c : ascii) : bool :=
  is_unreserved c || is_sub_delim c || is_gen_delim c || Ascii.eqb c "%".

Definition scheme_char (c : ascii) : bool :=
  is_alpha c || is_digit c || mem c "+-.".
Definition reg_name_char (c : ascii) : bool :=
  is_unreserved c || is_sub_delim c.
Definition userinfo_char (c : ascii) : bool :=
  reg_name_char c || Ascii.eqb c ":".
Definition pchar (c : ascii) : bool := reg_name_char c || mem c ":@".
Definition path_char (c : ascii) : bool := pchar c || Ascii.eqb c "/".
Definition query_char (c : ascii) : bool := pchar c || mem c "/?".

Fixpoint all_chars (ok : ascii → bool) (s : string) : bool :=
  match s with
  | EmptyString => true
  | String c s' => ok c && all_chars ok s'
  end.

(** Characters of a component: each one allowed there, or a percent-encoded
    octet. *)
Fixpoint chars_ok (ok : ascii → bool) (s : string) : bool :=
  match s with
  | EmptyString => true
  | String c s1 =>
      if Ascii.eqb c "%" then
        match s1 with
        | String h1 (String h2 s2) =>
            is_hexdig h1 && is_hexdig h2 && chars_ok ok s2
        | _ => false
        end
      else ok c && chars_ok ok s1
  end.

(** The longest prefix without a stop character, and what follows it. *)
Fixpoint span (stop : ascii → bool) (s : string) : string * string :=
  match s with
  | EmptyString => (EmptyString, EmptyString)
  | String c s' =>
      if stop c then (EmptyString, s)
      else let '(a, b) := span stop s' in (String c a, b)
  end.

Record url : Type := Build_url {
  scheme : string;
  userinfo : option string;
  host : string;
  port : option string;
  path : string;
  query : option string;
  fragment : option string
}.

Definition valid_scheme (s : string) : bool :=
  match s with
  | EmptyString => false
  | String c s' => is_alpha c && all_chars scheme_char s'
  end.

Definition opt_ok (ok : string → bool) (o : option string) : bool :=
  match o with
  | None => true
  | Some s => ok s
  end.

Definition valid (u : url) : bool :=
  valid_scheme (scheme u)
  && opt_ok (chars_ok userinfo_char) (userinfo u)
  && nonempty (host u) && chars_ok reg_name_char (host u)
  && opt_ok (all_chars is_digit) (port u)
  && chars_ok path_char (path u)
  && opt_ok (chars_ok query_char) (query u)
  && opt_ok (chars_ok query_char) (fragment u).

(** [strip pre s]: what follows [pre] in [s], when [s] starts with it. *)
Fixpoint strip (pre s : string) : option string :=
  match pre, s with
  | EmptyString, _ => Some s
  | String a pre', String b s' => if Ascii.eqb a b then strip pre' s' else None
  | String _ _, EmptyString => None
  end.

(** The authority: [[userinfo "@"] host [":" port]]. *)
Definition split_authority (auth : string)
  : option string * string * option string :=
  let '(ui, hp) :=
    let '(u, r) := span (fun c => mem c "@") auth in
    match strip "@" r with
    | Some h => (Some u, h)
    | None => (None, auth)
    end in
  let '(h, r) := span (fun c => mem c ":") hp in
  (ui, h, strip ":" r).

(** What follows the path: [["?" query] ["#" fragment]]. *)
Definition split_tail (r : string) : option string * option string :=
  match strip "?" r with
  | Some r' => let '(q, r'') := span (fun c => mem c "#") r' in
               (Some q, strip "#" r'')
  | None => (None, strip "#" r)
  end.

(** Cut a string into the components, at the delimiters of section 3 of the
    RFC. *)
Definition split (s : string) : option url :=
  let '(sch, r0) := span (fun c => mem c ":/?#") s in
  r1 ← strip "://" r0;
  let '(auth, r2) := span (fun c => mem c "/?#") r1 in
  let '(pth, r3) := span (fun c => mem c "?#") r2 in
  let '(ui, h, prt) := split_authority auth in
  let '(qry, frg) := split_tail r3 in
  Some (Build_url sch ui h prt pth qry frg).

Definition parse (s : string) : option url :=
  u ← split s; if valid u then Some u else None.

Definition parses_as_url (s : string) : bool :=
  match parse s with
  | Some _ => true
  | None => false
  end.

(** Section 5.3 of the RFC: the components put together again. *)
Definition recompose (u : url) : string :=
  scheme u +:+ "://"
  +:+ match userinfo u with Some x => x +:+ "@" | None => "" end
  +:+ host u
  +:+ match port u with Some x => ":" +:+ x | None => "" end
  +:+ path u
  +:+ match query u with Some x => "?" +:+ x | None => "" end
  +:+ match fragment u with Some x => "#" +:+ x | None => "" end.

End Url.

Import Url.

(** ** Checks on the record *)

Module Checks.




(** A plain web address: scheme [http] or [https], and a host and a path
    only. *)
Definition plain_web_url (u : url) : bool :=
  (String.eqb (scheme u) "http" || String.eqb (scheme u) "https")
  && match userinfo u, port u, query u, fragment u with
     | None, None, None, None => true
     | _, _, _, _ => false
     end.

End Checks.

Import Checks.

(** * Properties *)

(** ** Running a straight-line module *)

Section Run.

Implicit Types (g : gmap string value) (p : list stmt) (s : stmt).
Implicit Types (i j : nat) (k : string).

Lemma states_last g p : last (states g p) = Some (exec g p).
Proof.
  revert g. induction p as [|s p IH]; intros g; [done|].
  cbn [states]. rewrite last_cons, IH. done.
Qed.

Lemma states_length g p : length (states g p) = S (length p).
Proof. revert g. induction p as [|s p IH]; intros g; cbn; [done|]. by rewrite IH. Qed.

(** A statement only adds to a namespace in which the names it binds are
    free. *)
Lemma exec_stmt_fresh s g :
  (∀ k, k ∈ binds s → g !! k = None) → g ⊆ exec_stmt s g.
Proof.
  intros Hfresh. destruct s as [t|n|t e]; cbn in *; [done| |];
    apply insert_subseteq, Hfresh; set_solver.
Qed.

Lemma exec_stmt_other s g k :
  k ∉ binds s → exec_stmt s g !! k = g !! k.
Proof.
  intros Hk. destruct s as [t|n|t e]; cbn in *; [done| |];
    apply lookup_insert_ne; set_solver.
Qed.

(** A name that no statement binds is left as it was. *)
Lemma exec_other g p k : k ∉ targets p → exec g p !! k = g !! k.
Proof.
  revert g. induction p as [|s p IH]; intros g Hk; [done|].
  unfold targets in *. cbn in Hk. rewrite elem_of_app in Hk.
  change (exec g (s :: p)) with (exec (exec_stmt s g) p).
  rewrite IH by tauto. apply exec_stmt_other. tauto.
Qed.

Lemma fresh_for_step g s p :
  NoDup (targets (s :: p)) → fresh_for g (s :: p) →
  NoDup (targets p) ∧ fresh_for (exec_stmt s g) p
  ∧ (∀ k, k ∈ binds s → g !! k = None).
Proof.
  unfold fresh_for, targets. cbn. intros Hnd Hfr.
  apply NoDup_app in Hnd as (_ & Hdisj & Hnd).
  split_and!; [done| |].
  - intros k Hk. rewrite exec_stmt_other.
    + apply Hfr, elem_of_app. by right.
    + intros Hin. by apply (Hdisj k).
  - intros k Hk. apply Hfr, elem_of_app. by left.
Qed.

(** When every name is bound once, each namespace of the run extends the
    one the run started from ... *)
Lemma states_extend g p j gj :
  NoDup (targets p) → fresh_for g p →
  states g p !! j = Some gj → g ⊆ gj.
Proof.
  revert g j. induction p as [|s p IH]; intros g j Hnd Hfr Hj.
  - destruct j; cbn in Hj; by simplify_eq.
  - destruct j as [|j]; cbn in Hj; [by simplify_eq|].
    apply fresh_for_step in Hfr as (Hnd' & Hfr' & Hs); [|done].
    transitivity (exec_stmt s g); [by apply exec_stmt_fresh|].
    by eapply IH.
Qed.

(** ... and so each namespace of the run extends every earlier one. *)
Lemma states_mono g p i j gi gj :
  NoDup (targets p) → fresh_for g p → (i ≤ j)%nat →
  states g p !! i = Some gi → states g p !! j = Some gj → gi ⊆ gj.
Proof.
  revert g i j. induction p as [|s p IH]; intros g i j Hnd Hfr Hij Hi Hj.
  - destruct i, j; cbn in *; by simplify_eq.
  - destruct i as [|i].
    + cbn in Hi. simplify_eq. by eapply states_extend.
    + destruct j as [|j]; [lia|]. cbn in Hi, Hj.
      apply fresh_for_step in Hfr as (Hnd' & Hfr' & _); [|done].
      eapply (IH _ i j); eauto with lia.
Qed.

End Run.

(** ** The URL syntax *)

Section UrlSyntax.

Implicit Types (s a b r : string) (c : ascii) (u : url).

#[local] Arguments String.append !_ _ / : simpl nomatch.

Lemma span_app stop s a b : span stop s = (a, b) → s = a +:+ b.
Proof.
  revert a b. induction s as [|c s IH]; intros a b; cbn.
  - by intros [= <- <-].
  - destruct (stop c); [by intros [= <- <-]|].
    destruct (span stop s) as [a' b']. intros [= <- <-].
    cbn. f_equal. by apply IH.
Qed.

(** What follows the prefix is empty or starts with a stop character. *)
Lemma span_rest stop s a b :
  span stop s = (a, b) →
  b = "" ∨ ∃ c b', b = String c b' ∧ stop c = true.
Proof.
  revert a b. induction s as [|c s IH]; intros a b; cbn.
  - intros [= <- <-]. by left.
  - destruct (stop c) eqn:Hc; [intros [= <- <-]; right; eauto|].
    destruct (span stop s) as [a' b']. intros [= <- <-]. by eapply IH.
Qed.

Lemma strip_app pre s r : strip pre s = Some r → s = pre +:+ r.
Proof.
  revert s. induction pre as [|a pre IH]; intros [|b s]; cbn; try done.
  - by intros [= <-].
  - by intros [= <-].
  - destruct (Ascii.eqb_spec a b) as [->|]; [|done].
    intros H. f_equal. by apply IH.
Qed.

Lemma mem_one c d : mem c (String d "") = true → c = d.
Proof. cbn. rewrite orb_false_r. apply Ascii.eqb_eq. Qed.

(** After a component that ends at [d1] or [d2], a rest that does not start
    with [d1] is empty or starts with [d2]. *)
Lemma strip_none_one d r :
  (r = "" ∨ ∃ c b', r = String c b' ∧ mem c (String d "") = true) →
  strip (String d "") r = None → r = "".
Proof.
  intros [->|(c & b' & -> & Hc)]; [done|].
  apply mem_one in Hc as ->. cbn. by rewrite Ascii.eqb_refl.
Qed.

Lemma strip_none_two d1 d2 r :
  (r = "" ∨ ∃ c b', r = String c b'
                    ∧ mem c (String d1 (String d2 "")) = true) →
  strip (String d1 "") r = None → strip (String d2 "") r = None → r = "".
Proof.
  intros [->|(c & b' & -> & Hc)]; [done|]. cbn in *.
  rewrite orb_false_r in Hc.
  apply orb_true_iff in Hc as [Hc|Hc]; apply Ascii.eqb_eq in Hc as ->;
    rewrite Ascii.eqb_refl; done.
Qed.

#[local] Opaque strip.

Lemma string_app_assoc a b r : (a +:+ b) +:+ r = a +:+ (b +:+ r).
Proof. induction a as [|c a IH]; cbn; [done|]. by rewrite IH. Qed.

Lemma string_app_nil a : a +:+ "" = a.
Proof. induction a as [|c a IH]; cbn; [done|]. by rewrite IH. Qed.

Lemma split_authority_recompose auth ui h prt :
  split_authority auth = (ui, h, prt) →
  match ui with Some x => x +:+ "@" | None => "" end
  +:+ h +:+ match prt with Some x => ":" +:+ x | None => "" end = auth.
Proof.
  unfold split_authority.
  destruct (span _ auth) as [u0 ra] eqn:Ea. apply span_app in Ea.
  assert (∀ hp, (let '(h0, r) := span (fun c => mem c ":") hp in
                 (h0, strip ":" r)) = (h, prt) →
                h +:+ match prt with Some x => ":" +:+ x | None => "" end
                = hp) as Hhost.
  { intros hp. destruct (span _ hp) as [h0 rp] eqn:Ep.
    pose proof (span_rest _ _ _ _ Ep) as Rp. apply span_app in Ep as ->.
    intros [= <- <-]. f_equal.
    destruct (strip ":" rp) as [x|] eqn:Ex.
    - by apply strip_app in Ex.
    - by rewrite (strip_none_one ":" rp). }
  destruct (strip "@" ra) as [h0|] eqn:Ex.
  - destruct (span _ h0) as [h1 r1] eqn:E1. intros [= <- <- <-].
    apply strip_app in Ex. subst auth ra.
    rewrite (Hhost h0) by (by rewrite E1).
    by rewrite string_app_assoc.
  - destruct (span _ auth) as [h1 r1] eqn:E1. intros [= <- <- <-].
    cbn. apply Hhost. by rewrite E1.
Qed.

Lemma split_tail_recompose r qry frg :
  (r = "" ∨ ∃ c b', r = String c b' ∧ mem c "?#" = true) →
  split_tail r = (qry, frg) →
  match qry with Some x => "?" +:+ x | None => "" end
  +:+ match frg with Some x => "#" +:+ x | None => "" end = r.
Proof.
  unfold split_tail. intros Hr.
  destruct (strip "?" r) as [r'|] eqn:Eq.
  - destruct (span _ r') as [q r''] eqn:Er.
    pose proof (span_rest _ _ _ _ Er) as Rr.
    apply span_app in Er as ->. apply strip_app in Eq as ->.
    intros [= <- <-]. cbn. f_equal. f_equal.
    destruct (strip "#" r'') as [x|] eqn:Ex.
    + by apply strip_app in Ex.
    + by rewrite (strip_none_one "#" r'').
  - intros [= <- <-]. cbn.
    destruct (strip "#" r) as [x|] eqn:Ex.
    + by apply strip_app in Ex.
    + by rewrite (strip_none_two "?" "#" r).
Qed.

(** Cutting a string into components loses nothing: putting them together
    again gives the string back. *)
Lemma split_recompose s u : split s = Some u → recompose u = s.
Proof.
  unfold split, recompose.
  destruct (span _ s) as [sch r0] eqn:E0.
  destruct (strip "://" r0) as [r1|] eqn:E1; [cbn|done].
  destruct (span _ r1) as [auth r2] eqn:E2.
  destruct (span _ r2) as [pth r3] eqn:E3.
  apply span_app in E0 as ->. apply strip_app in E1 as ->.
  apply span_app in E2 as ->. pose proof (span_rest _ _ _ _ E3) as R3.
  apply span_app in E3 as ->.
  destruct (split_authority auth) as [[ui h] prt] eqn:Ea.
  destruct (split_tail r3) as [qry frg] eqn:Et.
  intros [= <-]. cbn [scheme userinfo host port path query fragment].
  apply split_authority_recompose in Ea. apply split_tail_recompose in Et; [|done].
  subst auth r3. cbn. by rewrite !string_app_assoc.
Qed.

Lemma all_chars_app ok a b :
  all_chars ok (a +:+ b) = all_chars ok a && all_chars ok b.
Proof. induction a as [|c a IH]; cbn; [done|]. by rewrite IH, andb_assoc. Qed.

Lemma all_chars_mono (ok ok' : ascii → bool) s :
  (∀ c, ok c = true → ok' c = true) →
  all_chars ok s = true → all_chars ok' s = true.
Proof.
  intros Hok. induction s as [|c s IH]; cbn; [done|].
  rewrite !andb_true_iff. intros [? ?]. auto.
Qed.

(** Every character class of the syntax is a set of ASCII characters. *)
Lemma uri_class_ascii c :
  path_char c || query_char c || userinfo_char c || reg_name_char c
  || scheme_char c || is_hexdig c || is_digit c || mem c ":/?#@%" = true →
  Utf8.is_ascii c = true.
Proof.
  destruct c as [b0 b1 b2 b3 b4 b5 b6 b7].
  destruct b7, b0, b1, b2, b3, b4, b5, b6; vm_compute; done.
Qed.

Lemma chars_ok_ascii (ok : ascii → bool) s :
  (∀ c, ok c = true → Utf8.is_ascii c = true) →
  chars_ok ok s = true → all_chars Utf8.is_ascii s = true.
Proof.
  intros Hok. remember (String.length s) as n eqn:Hn.
  revert s Hn. induction (lt_wf n) as [n _ IH]. intros s ->.
  destruct s as [|c s1]; [done|]. cbn [chars_ok all_chars].
  destruct (Ascii.eqb_spec c "%") as [->|_].
  - destruct s1 as [|h1 [|h2 s2]]; [done..|].
    rewrite !andb_true_iff. intros [[H1 H2] H3]. cbn.
    rewrite (uri_class_ascii h1), (uri_class_ascii h2);
      [|by rewrite ?H1, ?H2, ?orb_true_r..].
    split; [done|]. eapply IH; [|done..]. cbn. lia.
  - rewrite !andb_true_iff. intros [H1 H2]. split; [by apply Hok|].
    eapply IH; [|done..]. cbn. lia.
Qed.

Local Ltac class_ascii :=
  let c := fresh "c" in let H := fresh "H" in
  intros c H; apply uri_class_ascii; rewrite !orb_true_iff; tauto.

(** A string that parses as a URL is made of ASCII characters only. *)
Lemma parse_ascii s u :
  parse s = Some u → all_chars Utf8.is_ascii s = true.
Proof.
  unfold parse. destruct (split s) as [u'|] eqn:Es; [cbn|done].
  destruct (valid u') eqn:Hv; [|done]. intros _.
  apply split_recompose in Es as <-.
  unfold valid in Hv. rewrite !andb_true_iff in Hv.
  destruct Hv as [[[[[[[Hs Hu] _] Hh] Hp] Hpa] Hq] Hf].
  unfold recompose. rewrite !all_chars_app, !andb_true_iff. split_and!.
  - unfold valid_scheme in Hs. destruct (scheme u') as [|c sch]; [done|].
    apply andb_true_iff in Hs as [Hc Hs]. cbn. apply andb_true_iff. split.
    + apply uri_class_ascii. unfold scheme_char at 1.
      rewrite !orb_true_iff. tauto.
    + revert Hs. apply all_chars_mono. class_ascii.
  - done.
  - destruct (userinfo u') as [x|]; [|done]. cbn in Hu.
    rewrite all_chars_app, andb_true_iff. split; [|done].
    revert Hu. apply chars_ok_ascii. class_ascii.
  - revert Hh. apply chars_ok_ascii. class_ascii.
  - destruct (port u') as [x|]; [|done]. cbn in Hp.
    change (all_chars Utf8.is_ascii x = true).
    revert Hp. apply all_chars_mono. class_ascii.
  - revert Hpa. apply chars_ok_ascii. class_ascii.
  - destruct (query u') as [x|]; [|done]. cbn in Hq.
    change (all_chars Utf8.is_ascii x = true).
    revert Hq. apply chars_ok_ascii. class_ascii.
  - destruct (fragment u') as [x|]; [|done]. cbn in Hf.
    change (all_chars Utf8.is_ascii x = true).
    revert Hf. apply chars_ok_ascii. class_ascii.
Qed.

End UrlSyntax.

(** ** The record built by [pelicanconf.py] *)

Section Settings.

Implicit Types (k : string) (v : value).

(** A property of every field is checked on the list of the fields. *)
Lemma fields_forall (m : gmap string value) (f : string → value → bool) :
  forallb (fun kv => f kv.1 kv.2) (map_to_list m) = true →
  ∀ k v, m !! k = Some v → f k v = true.
Proof.
  intros Hall k v Hk. rewrite forallb_forall in Hall.
  apply elem_of_map_to_list, list_elem_of_In in Hk.
  exact (Hall (k, v) Hk).
Qed.

Lemma nonempty_ne s : nonempty s = true ↔ s ≠ "".
Proof. destruct s; cbn; split; (done || congruence). Qed.

Lemma feed_toggles_lookup k v :
  feed_toggles settings !! k = Some v ↔
  settings !! k = Some v ∧ is_feed_toggle k = true.
Proof. unfold feed_toggles. by rewrite map_lookup_filter_Some. Qed.

Lemma targets_pelicanconf :
  targets pelicanconf =
  [ "unicode_literals"; "AUTHOR"; "SITENAME"; "SITEURL"; "PATH"; "TIMEZONE";
    "DEFAULT_LANG"; "FEED_ALL_ATOM"; "CATEGORY_FEED_ATOM";
    "TRANSLATION_FEED_ATOM"; "AUTHOR_FEED_ATOM"; "AUTHOR_FEED_RSS"; "LINKS";
    "SOCIAL"; "DEFAULT_PAGINATION"; "THEME" ].
Proof. reflexivity. Qed.

Lemma targets_pelicanconf_NoDup : NoDup (targets pelicanconf).
Proof. apply (bool_decide_unpack _). by vm_compute. Qed.

Lemma fresh_for_empty (p : list stmt) : fresh_for ∅ p.
Proof. intros k _. apply lookup_empty. Qed.

(** The last namespace of the run is the record. *)
Lemma states_pelicanconf_last :
  last (states ∅ pelicanconf) = Some settings.
Proof. apply states_last. Qed.

(** C1: each of the required keys (author, site name, content path, timezone,
    default language, theme) is bound to a string, and that string is not
    empty. *)
Theorem required_keys_nonempty_strings k :
  k ∈ required_keys → ∃ s, settings !! k = Some (VStr s) ∧ s ≠ "".
Proof.
  intros Hk.
  assert (forallb (fun k => match settings !! k with
                            | Some (VStr s) => nonempty s
                            | _ => false
                            end) required_keys = true) as Hall
    by (by vm_compute).
  rewrite forallb_forall in Hall.
  apply list_elem_of_In, Hall in Hk.
  destruct (settings !! k) as [[| |s| |]|]; try done.
  exists s. split; [done|]. by apply nonempty_ne.
Qed.

Lemma required_keys_nonempty_strings_witness :
  ∃ s, settings !! "TIMEZONE" = Some (VStr s) ∧ s ≠ "".
Proof.
  apply (required_keys_nonempty_strings "TIMEZONE").
  unfold required_keys. set_solver.
Defined.

(** C4: the author is "greg nicol", the site name is
    "INSERT INTO /dev/null ...", the timezone is "Europe/Paris" and the
    pagination default is the boolean [False]. *)
Theorem author_sitename_timezone_pagination :
  settings !! "AUTHOR" = Some (VStr "greg nicol")
  ∧ settings !! "SITENAME" = Some (VStr "INSERT INTO /dev/null ...")
  ∧ settings !! "TIMEZONE" = Some (VStr "Europe/Paris")
  ∧ settings !! "DEFAULT_PAGINATION" = Some (VBool false).
Proof. by vm_compute. Qed.

(** C8: the site URL is a string, and it is the empty string. *)
Theorem siteurl_empty_string : settings !! "SITEURL" = Some (VStr "").
Proof. by vm_compute. Qed.

(** C9: the assignment to [RELATIVE_URLS] is a comment of the module, no
    statement binds the name, and the record has no such key. *)
Theorem relative_urls_inert :
  (Comment "RELATIVE_URLS = True" ∈ pelicanconf)
  ∧ ("RELATIVE_URLS" ∉ targets pelicanconf)
  ∧ settings !! "RELATIVE_URLS" = None.
Proof.
  assert ("RELATIVE_URLS" ∉ targets pelicanconf) as Hno.
  { rewrite targets_pelicanconf. apply (bool_decide_unpack _). by vm_compute. }
  split_and!; [|done|].
  - apply list_elem_of_In. unfold pelicanconf. cbn. tauto.
  - unfold settings. by rewrite exec_other.
Qed.

(** The feed settings of the record, by name. *)
Lemma feed_toggles_keys k :
  is_Some (feed_toggles settings !! k) ↔ k ∈ feed_keys.
Proof.
  split.
  - intros [v Hv]. apply list_elem_of_In.
    apply (fields_forall (feed_toggles settings)
             (fun k _ => existsb (String.eqb k) feed_keys)) in Hv;
      [|by vm_compute].
    apply existsb_exists in Hv as (k' & Hin & Heq).
    by apply String.eqb_eq in Heq as ->.
  - intros Hk. apply list_elem_of_In in Hk. cbn in Hk.
    destruct Hk as [<-|[<-|[<-|[<-|[<-|[]]]]]]; vm_compute; eauto.
Qed.

Lemma feed_toggles_all_ok k v :
  feed_toggles settings !! k = Some v → feed_toggle_ok v = true.
Proof.
  apply (fields_forall (feed_toggles settings) (fun _ v => feed_toggle_ok v)).
  by vm_compute.
Qed.

(** C3, as the record has it: there are five feed settings, not four
    ([FEED_ALL_ATOM], [CATEGORY_FEED_ATOM], [TRANSLATION_FEED_ATOM],
    [AUTHOR_FEED_ATOM] and [AUTHOR_FEED_RSS]), and each of them is [None] or a
    non-empty string. *)
Theorem five_feed_toggles_ok :
  size (feed_toggles settings) = 5
  ∧ (∀ k, is_Some (feed_toggles settings !! k) ↔ k ∈ feed_keys)
  ∧ map_Forall (fun _ v => feed_toggle_ok v = true) (feed_toggles settings).
Proof.
  split_and!.
  - by vm_compute.
  - apply feed_toggles_keys.
  - intros k v. apply feed_toggles_all_ok.
Qed.

Lemma five_feed_toggles_ok_witness :
  feed_toggle_ok VNone = true.
Proof.
  destruct five_feed_toggles_ok as (_ & _ & Hok).
  apply (Hok "AUTHOR_FEED_RSS"). by vm_compute.
Defined.

(** C3, as stated, does not hold: the record does not have exactly four feed
    settings. *)
Lemma not_four_feed_toggles :
  ¬ (size (feed_toggles settings) = 4
     ∧ map_Forall (fun _ v => feed_toggle_ok v = true)
         (feed_toggles settings)).
Proof. intros [Hsize _]. vm_compute in Hsize. discriminate. Qed.

(** C5: every feed setting of the record is [None]. *)
Theorem feed_toggles_disabled k v :
  is_feed_toggle k = true → settings !! k = Some v → v = VNone.
Proof.
  intros Hk Hv.
  pose proof (fields_forall settings
    (fun k v => implb (is_feed_toggle k)
                  match v with VNone => true | _ => false end)) as Hall.
  specialize (Hall ltac:(by vm_compute) k v Hv). cbn beta in Hall.
  rewrite Hk in Hall. by destruct v.
Qed.

Lemma feed_toggles_disabled_witness :
  ∃ v, settings !! "CATEGORY_FEED_ATOM" = Some v ∧ v = VNone.
Proof.
  exists VNone. split; [by vm_compute|].
  apply (feed_toggles_disabled "CATEGORY_FEED_ATOM"); by vm_compute.
Defined.

(** C7: every name of the module is bound by one statement only, and a
    field, once bound, has the same value in every later namespace of the run
    and in the record: no statement rebinds or removes it. *)
Theorem fields_bound_once_and_kept :
  NoDup (targets pelicanconf)
  ∧ (∀ (i j : nat) gi gj k v,
       (i ≤ j)%nat →
       states ∅ pelicanconf !! i = Some gi →
       states ∅ pelicanconf !! j = Some gj →
       gi !! k = Some v →
       gj !! k = Some v ∧ settings !! k = Some v).
Proof.
  split; [apply targets_pelicanconf_NoDup|].
  intros i j gi gj k v Hij Hi Hj Hk.
  pose proof targets_pelicanconf_NoDup as Hnd.
  pose proof (fresh_for_empty pelicanconf) as Hfr.
  split.
  - eapply lookup_weaken; [exact Hk|]. by eapply (states_mono ∅ pelicanconf i j).
  - pose proof states_pelicanconf_last as Hlast.
    rewrite last_lookup, states_length in Hlast. cbn [pred] in Hlast.
    eapply lookup_weaken; [exact Hk|].
    eapply (states_mono ∅ pelicanconf i (length pelicanconf)); eauto.
    apply lookup_lt_Some in Hi. rewrite states_length in Hi. lia.
Qed.

Lemma fields_bound_once_and_kept_witness :
  exec ∅ (take 6 pelicanconf) !! "AUTHOR" = Some (VStr "greg nicol")
  ∧ settings !! "AUTHOR" = Some (VStr "greg nicol").
Proof.
  destruct fields_bound_once_and_kept as [_ Hkept].
  apply (Hkept 4 6 (exec ∅ (take 4 pelicanconf))
           (exec ∅ (take 6 pelicanconf)) "AUTHOR" (VStr "greg nicol")).
  - lia.
  - reflexivity.
  - reflexivity.
  - by vm_compute.
Defined.

(** C10: the links are the four pairs of the module, in their order, the last
    of them with the URL that ends in the two characters U+0E22 and U+0E07;
    the social links are its two pairs, in their order. *)
Theorem links_and_social_values :
  settings !! "LINKS"
  = Some (VTuple
      [ VTuple [VStr "Pelican"; VStr "http://getpelican.com/"];
        VTuple [VStr "Python.org"; VStr "http://python.org/"];
        VTuple [VStr "Jinja2"; VStr "http://jinja.pocoo.org/"];
        VTuple [VStr "CloudFlare"; VStr "https://www.cloudflare.com/ยง"] ])
  ∧ settings !! "SOCIAL"
    = Some (VTuple
        [ VTuple [VStr "github"; VStr "https://github.com/gregn610"];
          VTuple [VStr "linkedin";
                  VStr "https://www.linkedin.com/in/greg-nicol-087a438/"] ])
  ∧ Utf8.decode "ยง" = Some [3618; 3591]%N.
Proof. by vm_compute. Qed.

(** Both lists are tuples of 2-tuples of strings. *)
Lemma links_pairs :
  pair_list settings "LINKS"
  = Some [ ("Pelican", "http://getpelican.com/");
           ("Python.org", "http://python.org/");
           ("Jinja2", "http://jinja.pocoo.org/");
           ("CloudFlare", "https://www.cloudflare.com/ยง") ].
Proof. by vm_compute. Qed.

Lemma social_pairs :
  pair_list settings "SOCIAL"
  = Some [ ("github", "https://github.com/gregn610");
           ("linkedin", "https://www.linkedin.com/in/greg-nicol-087a438/") ].
Proof. by vm_compute. Qed.

(** The part of C2 the record satisfies: every label and every URL of the two
    lists is a non-empty string, and every URL but the last of the links
    parses. *)
Lemma link_lists_shape :
  ∃ links social,
    pair_list settings "LINKS" = Some links
    ∧ pair_list settings "SOCIAL" = Some social
    ∧ Forall (fun lu => lu.1 ≠ "" ∧ lu.2 ≠ "") (links ++ social)
    ∧ Forall (fun lu => parses_as_url lu.2 = true) (take 3 links ++ social).
Proof.
  eexists _, _. split; [apply links_pairs|]. split; [apply social_pairs|].
  split.
  - repeat constructor; done.
  - repeat constructor.
Qed.

(** Without its last two characters the URL of the CloudFlare link parses. *)
Lemma cloudflare_url_without_tail :
  parse "https://www.cloudflare.com/"
  = Some (Build_url "https" None "www.cloudflare.com" None "/" None None).
Proof. reflexivity. Qed.

(** C2 at the fourth link: the record pairs the label CloudFlare with a
    string that does not parse as a URL, its last six bytes not being
    ASCII. *)
Theorem cloudflare_link_not_url :
  (pair_list settings "LINKS" ≫= (.!! 3%nat))
  = Some ("CloudFlare", "https://www.cloudflare.com/ยง")
  ∧ parses_as_url "https://www.cloudflare.com/ยง" = false
  ∧ all_chars Utf8.is_ascii "https://www.cloudflare.com/ยง" = false.
Proof. by vm_compute. Qed.

End Settings.

(** ** Statements commute and overlay *)

Section Compose.

Implicit Types (g m : gmap string value) (p : list stmt) (s : stmt).
Implicit Types (k : string).

Lemma exec_cons g s p : exec g (s :: p) = exec (exec_stmt s g) p.
Proof. reflexivity. Qed.

Lemma exec_stmt_union s m g : exec_stmt s (m ∪ g) = exec_stmt s m ∪ g.
Proof. destruct s; cbn; [done|..]; by rewrite insert_union_l. Qed.

(** What the namespace held before stays underneath what the statements
    bind. *)
Lemma exec_union p m g : exec (m ∪ g) p = exec m p ∪ g.
Proof.
  revert m. induction p as [|s p IH]; intros m; [done|].
  by rewrite !exec_cons, exec_stmt_union, IH.
Qed.

Lemma exec_overlay p g : exec g p = exec ∅ p ∪ g.
Proof. by rewrite <- exec_union, (left_id_L ∅ (∪)). Qed.







End Compose.

(** ** The record as a whole *)

Section Record.

Implicit Types (g : gmap string value) (p : list stmt) (k : string).




(** X2: the content path is "content", the default language "en" and the
    theme "themes/pelican-sober". *)
Theorem path_lang_theme_values :
  settings !! "PATH" = Some (VStr "content")
  ∧ settings !! "DEFAULT_LANG" = Some (VStr "en")
  ∧ settings !! "THEME" = Some (VStr "themes/pelican-sober").
Proof. by vm_compute. Qed.


(** X4: running the module again over its own result changes nothing. *)
Theorem pelicanconf_rerun g :
  exec (exec g pelicanconf) pelicanconf = exec g pelicanconf.
Proof.
  rewrite (exec_overlay pelicanconf (exec g pelicanconf)).
  rewrite (exec_overlay pelicanconf g).
  by rewrite (assoc_L (∪)), (idemp_L (∪)).
Qed.



(** X6: every string of the record is UTF-8 text, and all of it is ASCII but
    for one string, the URL of the CloudFlare link. *)
Theorem only_cloudflare_url_not_ascii k v s :
  settings !! k = Some v → s ∈ strings_of v →
  is_Some (Utf8.decode s)
  ∧ (all_chars Utf8.is_ascii s = true
     ∨ k = "LINKS" ∧ s = "https://www.cloudflare.com/ยง").
Proof.
  intros Hk Hs.
  pose proof (fields_forall settings
    (fun k v =>
       forallb (fun s =>
         match Utf8.decode s with Some _ => true | None => false end
         && (all_chars Utf8.is_ascii s
             || String.eqb k "LINKS"
                && String.eqb s "https://www.cloudflare.com/ยง"))
         (strings_of v))) as Hall.
  specialize (Hall ltac:(by vm_compute) k v Hk). cbn beta in Hall.
  rewrite forallb_forall in Hall.
  apply list_elem_of_In, Hall in Hs.
  apply andb_true_iff in Hs as [Hd Ha]. split.
  - by destruct (Utf8.decode s).
  - apply orb_true_iff in Ha as [?|Ha]; [by left|right].
    apply andb_true_iff in Ha as [H1 H2].
    by apply String.eqb_eq in H1, H2.
Qed.

Lemma only_cloudflare_url_not_ascii_witness :
  is_Some (Utf8.decode "themes/pelican-sober")
  ∧ (all_chars Utf8.is_ascii "themes/pelican-sober" = true
     ∨ "THEME" = "LINKS"
       ∧ "themes/pelican-sober" = "https://www.cloudflare.com/ยง").
Proof.
  apply (only_cloudflare_url_not_ascii "THEME" (VStr "themes/pelican-sober")).
  - by vm_compute.
  - cbn. apply list_elem_of_singleton. reflexivity.
Defined.



(** X8: the links are a tuple of four 2-tuples of strings and the social
    links a tuple of two, and none of the labels and URLs is empty. *)
Theorem link_lists_are_pairs :
  ∃ links social,
    pair_list settings "LINKS" = Some links
    ∧ pair_list settings "SOCIAL" = Some social
    ∧ length links = 4%nat ∧ length social = 2%nat
    ∧ Forall (fun lu => lu.1 ≠ "" ∧ lu.2 ≠ "") (links ++ social)%list.
Proof.
  eexists _, _. split; [apply links_pairs|]. split; [apply social_pairs|].
  split_and!; [done..|]. repeat constructor; done.
Qed.

(** X9: the URLs of the first three links and of the two social links parse;
    each is a plain web address, with scheme http or https, a host and a
    path, and without user, port, query or fragment. *)
Theorem other_urls_plain_web k l (i : nat) label url :
  pair_list settings k = Some l → l !! i = Some (label, url) →
  url ≠ "https://www.cloudflare.com/ยง" →
  ∃ u, parse url = Some u ∧ plain_web_url u = true ∧ recompose u = url.
Proof.
  intros Hl Hi Hne.
  assert (k = "LINKS" ∨ k = "SOCIAL") as Hk.
  { unfold pair_list in Hl.
    destruct (settings !! k) as [v|] eqn:Hv; [|done].
    pose proof (fields_forall settings
      (fun k v => match as_pairs v with
                  | Some _ => String.eqb k "LINKS" || String.eqb k "SOCIAL"
                  | None => true
                  end) ltac:(by vm_compute) k v Hv) as Hall.
    cbn in Hl, Hall. rewrite Hl in Hall.
    apply orb_true_iff in Hall as [H|H]; apply String.eqb_eq in H; auto. }
  assert (∃ u, parse url = Some u ∧ plain_web_url u = true) as (u & Hu & Hw).
  { destruct Hk as [-> | ->].
    - rewrite links_pairs in Hl. injection Hl as <-.
      destruct i as [|[|[|[|i]]]]; cbn in Hi; try done;
        injection Hi as <- <-; try done; by eexists.
    - rewrite social_pairs in Hl. injection Hl as <-.
      destruct i as [|[|i]]; cbn in Hi; try done;
        injection Hi as <- <-; by eexists. }
  exists u. split_and!; [done..|].
  unfold parse in Hu. destruct (split url) as [u'|] eqn:Hs; [|done].
  cbn in Hu. destruct (valid u'); [|done]. injection Hu as ->.
  by apply split_recompose.
Qed.

Lemma other_urls_plain_web_witness :
  ∃ u, parse "https://github.com/gregn610" = Some u
       ∧ plain_web_url u = true
       ∧ recompose u = "https://github.com/gregn610".
Proof.
  apply (other_urls_plain_web "SOCIAL"
           [ ("github", "https://github.com/gregn610");
             ("linkedin", "https://www.linkedin.com/in/greg-nicol-087a438/") ]
           0 "github" "https://github.com/gregn610").
  - by vm_compute.
  - reflexivity.
  - intros [=].
Defined.



End Record.
